(** * Region read/write engine, frontend SQL dispatch and the
    [to_unixtime] scalar function of greptimedb, embedded in Rocq. *)

From Stdlib Require Import String ZArith NArith List Bool Lia.
From Stdlib Require Import Sorting.Permutation Sorting.Sorted.
Import ListNotations.
Open Scope string_scope.
Open Scope list_scope.

(** A Rust [Result<T, E>]. *)
Inductive result (A E : Type) : Type :=
| Ok (a : A)
| Err (e : E).
Arguments Ok {A E} a.
Arguments Err {A E} e.

(** ** The region storage engine.

    The region implementation ([RegionImpl] and its write path, memtable,
    snapshot and chunk reader) is not under src/; only its tests
    (src/storage/src/region/tests/read_write.rs) are.  Everything in this
    module up to the test harness is therefore modelled from the spec
    (sections 3, 4.2-4.5 and 6).  The row key is the time-index column, as
    in the regions the tests create; values are nullable Int64, [option Z]. *)
Module Region.

(** Modelled from the spec: the role of a column in [RegionMetadata]
    (section 3). *)
Inductive Role := RoleKey | RoleValue | RoleTimeIndex | RoleVersion.

Definition Role_eqb (a b : Role) : bool :=
  match a, b with
  | RoleKey, RoleKey | RoleValue, RoleValue
  | RoleTimeIndex, RoleTimeIndex | RoleVersion, RoleVersion => true
  | _, _ => false
  end.

(** Modelled from the spec: one column of [RegionMetadata]:
    [(name, logical_type, nullable, role)]; the logical type of every
    modelled column is Int64, so it is not recorded. *)
Record ColumnMetadata := {
  col_name : string;
  col_nullable : bool;
  col_role : Role
}.

Definition ColumnMetadata_eqb (a b : ColumnMetadata) : bool :=
  String.eqb (col_name a) (col_name b)
  && Bool.eqb (col_nullable a) (col_nullable b)
  && Role_eqb (col_role a) (col_role b).

(** Modelled from the spec: the ordered column list of a region. *)
Definition RegionMetadata := list ColumnMetadata.

(** The schema a metadata reports: its ordered column list. *)
Definition Schema := list ColumnMetadata.
Definition schema (m : RegionMetadata) : Schema := m.

Definition schema_eqb (a b : Schema) : bool :=
  (Nat.eqb (List.length a) (List.length b))
  && forallb (fun p => ColumnMetadata_eqb (fst p) (snd p)) (combine a b).

Definition SequenceNumber := N.

(** A nullable Int64 cell and a row aligned with the region's columns. *)
Abbreviation Cell := (option Z) (only parsing).
Abbreviation Row := (list Cell) (only parsing).

(** Modelled from the spec: a logical mutation of a write batch, either
    put-with-values (column name to column values) or delete-by-key. *)
Inductive Mutation :=
| Put (data : list (string * list Cell))
| Delete (keys : list Z).

Definition WriteBatch := list Mutation.

(** Modelled from the spec: a memtable entry
    [(RowKey, SequenceNumber, values, tombstone?)]. *)
Inductive OpType := OpPut (row : Row) | OpDelete.

Record Entry := {
  e_key : Z;
  e_seq : SequenceNumber;
  e_op : OpType
}.

(** Modelled from the spec: the region container. Persisted chunks are
    kept in flush order; the active memtable is appended to. *)
Record RegionImpl := {
  name : string;
  metadata : RegionMetadata;
  committed_seq : SequenceNumber;
  memtable : list Entry;
  chunks : list (list Entry)
}.

(** Modelled from the spec: [RegionImpl::new(name, metadata)], a fresh
    region with nothing committed. *)
Definition new_region (n : string) (m : RegionMetadata) : RegionImpl :=
  {| name := n; metadata := m; committed_seq := 0%N;
     memtable := []; chunks := [] |}.

(** Modelled from the spec: the read-only introspections of section 6. *)
Definition committed_sequence (r : RegionImpl) : SequenceNumber :=
  committed_seq r.

Definition in_memory_metadata (r : RegionImpl) : RegionMetadata :=
  metadata r.

(** Every entry the region holds, in the order it was inserted. *)
Definition all_entries (r : RegionImpl) : list Entry :=
  concat (chunks r) ++ memtable r.

(** *** Write-batch validation (spec 4.1 (a)-(d), 4.2 step 1). *)

Fixpoint find_column (m : RegionMetadata) (c : string)
  : option ColumnMetadata :=
  match m with
  | [] => None
  | cm :: t => if String.eqb (col_name cm) c then Some cm else find_column t c
  end.

Fixpoint lookup_data (data : list (string * list Cell)) (c : string)
  : option (list Cell) :=
  match data with
  | [] => None
  | (c', col) :: t => if String.eqb c' c then Some col else lookup_data t c
  end.

(** A column the batch must provide: a key column or a non-nullable one. *)
Definition required (cm : ColumnMetadata) : bool :=
  negb (col_nullable cm) || negb (Role_eqb (col_role cm) RoleValue).

Definition num_rows (data : list (string * list Cell)) : nat :=
  match data with
  | [] => 0
  | (_, col) :: _ => List.length col
  end.

(** Modelled from the spec: validation of a put against the region's
    metadata, checks (a)-(d) of 4.1. *)
Definition validate_put (m : RegionMetadata) (data : list (string * list Cell))
  : bool :=
  (* (a) every referenced column exists, (d) nulls only where nullable *)
  forallb (fun '(c, col) =>
             match find_column m c with
             | Some cm => col_nullable cm || forallb (fun v : Cell => match v with Some _ => true | None => false end) col
             | None => false
             end) data
  (* (b) every column carries the same number of values *)
  && forallb (fun '(_, col) => Nat.eqb (List.length col) (num_rows data)) data
  (* (c) key (and non-nullable) columns are provided *)
  && forallb (fun cm => negb (required cm)
                        || existsb (fun '(c, _) => String.eqb c (col_name cm)) data)
       m.

Definition validate_mutation (m : RegionMetadata) (mu : Mutation) : bool :=
  match mu with
  | Put data => validate_put m data
  | Delete _ => true
  end.

Definition validate_batch (m : RegionMetadata) (b : WriteBatch) : bool :=
  forallb (validate_mutation m) b.

(** *** From a validated batch to memtable entries. *)

Fixpoint time_index_name (m : RegionMetadata) : string :=
  match m with
  | [] => EmptyString
  | cm :: t =>
      if Role_eqb (col_role cm) RoleTimeIndex then col_name cm
      else time_index_name t
  end.

(** Row [i] of a put, aligned with the region's columns; a nullable
    column the put does not mention is null. *)
Definition put_row (m : RegionMetadata) (data : list (string * list Cell))
  (i : nat) : Row :=
  map (fun cm => match lookup_data data (col_name cm) with
                 | Some col => nth i col None
                 | None => None
                 end) m.

Definition put_key (m : RegionMetadata) (data : list (string * list Cell))
  (i : nat) : Z :=
  match lookup_data data (time_index_name m) with
  | Some col => match nth i col None with Some t => t | None => 0%Z end
  | None => 0%Z
  end.

Definition mutation_entries (m : RegionMetadata) (seq : SequenceNumber)
  (mu : Mutation) : list Entry :=
  match mu with
  | Put data =>
      map (fun i => {| e_key := put_key m data i; e_seq := seq;
                       e_op := OpPut (put_row m data i) |})
        (List.seq 0 (num_rows data))
  | Delete keys =>
      map (fun k => {| e_key := k; e_seq := seq; e_op := OpDelete |}) keys
  end.

(** Modelled from the spec: one sequence number per batch, shared by every
    row of it (the granularity the tests observe). *)
Definition batch_entries (m : RegionMetadata) (seq : SequenceNumber)
  (b : WriteBatch) : list Entry :=
  flat_map (mutation_entries m seq) b.

(** *** The write path (spec 4.2). *)

Inductive WriteError := SchemaMismatch | WalWriteError.

Record WriteResponse := { affected_rows : nat }.

(** Modelled from the spec: the WAL writer collaborator,
    [append(region_id, sequence, encoded_batch) -> Result<(), WalWriteError>];
    [true] is a durable append. *)
Definition Wal := string -> SequenceNumber -> WriteBatch -> bool.

(** The no-op log store the tests run with: every append succeeds. *)
Definition noop_wal : Wal := fun _ _ _ => true.

(** Modelled from the spec: [region.write(ctx, batch)], steps 1-5 of 4.2.
    The region state it returns is the state after the call. *)
Definition write (wal : Wal) (r : RegionImpl) (b : WriteBatch)
  : RegionImpl * result WriteResponse WriteError :=
  if negb (validate_batch (metadata r) b) then (r, Err SchemaMismatch)
  else
    let next := (committed_seq r + 1)%N in
    if wal (name r) next b then
      let es := batch_entries (metadata r) next b in
      ({| name := name r; metadata := metadata r; committed_seq := next;
          memtable := memtable r ++ es; chunks := chunks r |},
       Ok {| affected_rows := List.length es |})
    else (r, Err WalWriteError).

(** Modelled from the spec: flush moves the active memtable, as a unit, to
    a new persisted chunk and makes a new empty memtable active (4.4). *)
Definition flush (r : RegionImpl) : RegionImpl :=
  {| name := name r; metadata := metadata r; committed_seq := committed_seq r;
     memtable := []; chunks := chunks r ++ [memtable r] |}.

(** The operations that change a region. Snapshots and scans are pure
    reads of it. *)
Inductive Op := OpWrite (b : WriteBatch) | OpFlush.

Definition step (wal : Wal) (r : RegionImpl) (op : Op) : RegionImpl :=
  match op with
  | OpWrite b => fst (write wal r b)
  | OpFlush => flush r
  end.

Definition run (wal : Wal) (r : RegionImpl) (ops : list Op) : RegionImpl :=
  fold_left (step wal) ops r.

(** *** Snapshot and chunk reader (spec 4.5). *)

(** Modelled from the spec: a snapshot captures the committed sequence and
    the metadata; the memtable and chunks it reads are the shared ones,
    read when the scan runs, filtered by the captured bound. *)
Record Snapshot := {
  snap_sequence : SequenceNumber;
  snap_metadata : RegionMetadata
}.

(** Modelled from the spec: the read context carries the number of rows
    per chunk, a positive number. *)
Record ReadContext := { batch_size : positive }.
Definition default_read_context : ReadContext := {| batch_size := 256%positive |}.

(** Modelled from the spec: a scan request may restrict the column
    projection (indices into the schema); the default one does not. *)
Record ScanRequest := { projection : option (list nat) }.
Definition default_scan_request : ScanRequest := {| projection := None |}.

(** Modelled from the spec: [region.snapshot(ctx)] captures the committed
    sequence and the metadata atomically. *)
Definition snapshot (r : RegionImpl) : Snapshot :=
  {| snap_sequence := committed_seq r; snap_metadata := metadata r |}.

(** Modelled from the spec: insertion into the merge's key-sorted output,
    keeping per key the entry with the highest sequence (the later one on a
    tie). *)
Fixpoint upsert (e : Entry) (acc : list Entry) : list Entry :=
  match acc with
  | [] => [e]
  | x :: t =>
      if (e_key e <? e_key x)%Z then e :: acc
      else if (e_key e =? e_key x)%Z then
        (if (e_seq x <=? e_seq e)%N then e :: t else acc)
      else x :: upsert e t
  end.

(** Modelled from the spec: the reader's merge (4.5), per key the entry
    with the highest sequence within the bound, in ascending key order. *)
Definition merge_visible (bound : SequenceNumber) (es : list Entry)
  : list Entry :=
  fold_left (fun acc e => if (e_seq e <=? bound)%N then upsert e acc else acc)
    es [].

(** Modelled from the spec: tombstones are suppressed, not emitted. *)
Fixpoint live_rows (es : list Entry) : list Row :=
  match es with
  | [] => []
  | e :: t => match e_op e with
              | OpPut row => row :: live_rows t
              | OpDelete => live_rows t
              end
  end.

(** A column projection by schema index. *)
Definition project {A} (p : option (list nat)) (d : A) (l : list A) : list A :=
  match p with
  | None => l
  | Some idx => map (fun i => nth i l d) idx
  end.

(** The default of [nth] on a schema. *)
Definition dummy_column : ColumnMetadata :=
  {| col_name := EmptyString; col_nullable := true; col_role := RoleValue |}.

(** Modelled from the spec: a chunk of rows, and the lazy, forward-only
    reader producing them. *)
Record Chunk := { chunk_rows : list Row }.

Record ChunkReader := {
  reader_schema : Schema;
  remaining : list Row;
  reader_batch_size : positive
}.

(** Modelled from the spec: [snapshot.scan(ctx, request)], run against the
    region as it is when the scan runs; the reader's schema is the
    (projected) schema the snapshot captured. *)
Definition scan (r : RegionImpl) (s : Snapshot) (ctx : ReadContext)
  (req : ScanRequest) : ChunkReader :=
  {| reader_schema := project (projection req) dummy_column
                        (schema (snap_metadata s));
     remaining := map (project (projection req) None)
                    (live_rows (merge_visible (snap_sequence s) (all_entries r)));
     reader_batch_size := batch_size ctx |}.

(** Modelled from the spec: [reader.next_chunk()], the next chunk of at
    most [batch_size] rows, [None] once the rows are exhausted. *)
Definition next_chunk (rd : ChunkReader) : ChunkReader * option Chunk :=
  match remaining rd with
  | [] => (rd, None)
  | rows =>
      let k := Pos.to_nat (reader_batch_size rd) in
      ({| reader_schema := reader_schema rd; remaining := skipn k rows;
          reader_batch_size := reader_batch_size rd |},
       Some {| chunk_rows := firstn k rows |})
  end.

(** Calls [next_chunk] until it returns [None], for at most [fuel] calls;
    [None] when the fuel ran out first. *)
Fixpoint drain (fuel : nat) (rd : ChunkReader)
  : option (list Chunk * ChunkReader) :=
  match fuel with
  | O => None
  | S f =>
      match next_chunk rd with
      | (rd', None) => Some ([], rd')
      | (rd', Some c) =>
          match drain f rd' with
          | Some (cs, rd'') => Some (c :: cs, rd'')
          | None => None
          end
      end
  end.

(** *** Properties the proofs refer to. *)

(** Entries of a region and the sequence bound. *)
Definition seq_bounded (r : RegionImpl) : Prop :=
  Forall (fun e => (e_seq e <= committed_seq r)%N) (all_entries r).

(** A put that fails validation: an unknown column, columns of different
    lengths, or a null in a non-nullable column. *)
Definition put_mismatch (m : RegionMetadata) (data : list (string * list Cell))
  : Prop :=
  (exists c col, In (c, col) data /\ find_column m c = None) \/
  (exists c1 col1 c2 col2, In (c1, col1) data /\ In (c2, col2) data /\
                           List.length col1 <> List.length col2) \/
  (exists c col cm, In (c, col) data /\ find_column m c = Some cm /\
                    col_nullable cm = false /\ In None col).

Definition batch_mismatch (m : RegionMetadata) (b : WriteBatch) : Prop :=
  exists data, In (Put data) b /\ put_mismatch m data.

Definition key_lt (a b : Entry) : Prop := (e_key a < e_key b)%Z.

End Region.

(** ** The read/write test harness, src/storage/src/region/tests/read_write.rs.

    A panicking [unwrap] or [assert_eq!] is [None]. *)
Module ReadWriteTest.
Import Region.

(** [test_util::TIMESTAMP_NAME], the time-index column of the test
    regions (its definition is not under src/). *)
Definition TIMESTAMP_NAME : string := "timestamp".

(** [new_region_for_rw(false)]: the time-index column built by
    [RegionDescBuilder] followed by [("v1", Int64, nullable)]. *)
Definition rw_metadata : RegionMetadata :=
  [ {| col_name := TIMESTAMP_NAME; col_nullable := false;
       col_role := RoleTimeIndex |};
    {| col_name := "v1"; col_nullable := true; col_role := RoleValue |} ].

Definition new_region_for_rw : RegionImpl :=
  new_region "region-rw-0" rw_metadata.

(** [new_put_data(data)]: the timestamp key column and the [v1] column. *)
Definition new_put_data (data : list (Z * Cell)) : list (string * list Cell) :=
  [ (TIMESTAMP_NAME, map (fun kv => Some (fst kv)) data);
    ("v1", map snd data) ].

(** [Tester::put]: one batch holding one put, written and unwrapped. *)
Definition tester_put (wal : Wal) (r : RegionImpl) (data : list (Z * Cell))
  : option RegionImpl :=
  match write wal r [Put (new_put_data data)] with
  | (r', Ok _) => Some r'
  | (_, Err _) => None
  end.

(** [append_chunk_to]: two columns per row, [ts.unwrap()] and the value. *)
Fixpoint append_rows (rows : list Row) : option (list (Z * Cell)) :=
  match rows with
  | [] => Some []
  | [Some ts; v] :: t =>
      match append_rows t with
      | Some l => Some ((ts, v) :: l)
      | None => None
      end
  | _ :: _ => None
  end.

Fixpoint append_chunks (cs : list Chunk) : option (list (Z * Cell)) :=
  match cs with
  | [] => Some []
  | c :: t =>
      match append_rows (chunk_rows c), append_chunks t with
      | Some l1, Some l2 => Some (l1 ++ l2)
      | _, _ => None
      end
  end.

(** [Tester::full_scan]: snapshot, default scan, the schema assertion and
    the [while let Some(chunk) = reader.next_chunk()] loop; the loop runs
    with one more call than there are rows to emit. *)
Definition full_scan (r : RegionImpl) : option (list (Z * Cell)) :=
  let s := snapshot r in
  let rd := scan r s default_read_context default_scan_request in
  if negb (schema_eqb (schema (in_memory_metadata r)) (reader_schema rd))
  then None
  else match drain (S (List.length (remaining rd))) rd with
       | Some (cs, _) => append_chunks cs
       | None => None
       end.

(** The loop of [test_sequence_increase]: [n] single-row puts
    [(i, Some(1234))], each followed by the committed sequence observed. *)
Fixpoint sequence_increase_from (r : RegionImpl) (i n : nat)
  : option (list SequenceNumber) :=
  match n with
  | O => Some []
  | S n' =>
      match tester_put noop_wal r [(Z.of_nat i, Some 1234%Z)] with
      | Some r' =>
          if (committed_sequence r' =? committed_sequence r + 1)%N then
            match sequence_increase_from r' (S i) n' with
            | Some l => Some (committed_sequence r' :: l)
            | None => None
            end
          else None
      | None => None
      end
  end.

Definition test_sequence_increase (n : nat) : option (list SequenceNumber) :=
  sequence_increase_from new_region_for_rw 0 n.

(** The data of [test_simple_put_scan]. *)
Definition simple_put_data : list (Z * Cell) :=
  [(1000, Some 100); (1001, Some 101); (1002, None);
   (1003, Some 103); (1004, Some 104)]%Z.


(** The rows [Tester::put] writes, as memtable entries of sequence 1. *)
Definition test_entry (d : Z * Cell) : Entry :=
  {| e_key := fst d; e_seq := 1%N; e_op := OpPut [Some (fst d); snd d] |}.

(** The batch of the first iteration of [test_sequence_increase]. *)
Definition first_put : WriteBatch := [Put (new_put_data [(0%Z, Some 1234%Z)])].

(** The rejected batch of C5: valid [timestamp] and [v1] columns next to
    an unknown column [v9]. *)
Definition mixed_batch : WriteBatch :=
  [Put [(TIMESTAMP_NAME, [Some 1%Z; Some 2%Z]); ("v1", [Some 10%Z; Some 20%Z]);
        ("v9", [Some 3%Z; Some 4%Z])]].

End ReadWriteTest.

(** ** The frontend instance, src/frontend/src/instance.rs.

    The SQL parser, [table_idents_to_full_name], [column_def_to_schema],
    [ColumnDataTypeWrapper::try_from] and the datanode client live outside
    src/; they are section variables, so every theorem holds for any of
    them. *)
Module Frontend.

(** [sql::ast::ObjectName]: its identifiers. *)
Definition ObjectName := list string.

Record ColumnDef := { cd_name : string; cd_data_type : string; cd_nullable : bool }.
Record ColumnSchema := { cs_name : string; cs_data_type : string; cs_is_nullable : bool }.
Definition ColumnDataType := Z.

(** [sql::ast::TableConstraint]: [Unique] and the other kinds. *)
Inductive TableConstraint :=
| Unique (cname : option string) (columns : list string) (is_primary : bool)
| ForeignKey
| Check.

Record CreateTable := {
  ct_name : ObjectName;
  ct_columns : list ColumnDef;
  ct_constraints : list TableConstraint;
  ct_if_not_exists : bool;
  ct_engine : string
}.

(** [sql::statements::create_table::TIME_INDEX]. *)
Definition TIME_INDEX : string := "__time_index".

Record GrpcColumnDef := { g_name : string; g_data_type : ColumnDataType; g_is_nullable : bool }.

Record CreateExpr := {
  catalog_name : string;
  schema_name : string;
  table_name : string;
  column_defs : list GrpcColumnDef;
  time_index : string;
  primary_keys : list string;
  create_if_not_exists : bool;
  table_options : list (string * string)
}.

Record InsertExpr := { ie_table_name : string; ie_sql : string }.

(** [sql::statements::statement::Statement]. *)
Inductive Statement :=
| StQuery
| StInsert (table : string)
| StCreate (c : CreateTable)
| StAlter
| StShowDatabases
| StShowTables.

(** [crate::error::Error] of the frontend, the variants used here. *)
Inductive Error :=
| ParseSql
| InvalidSql (err_msg : string)
| ColumnDataTypeError.

(** [servers::error::Error], the variants used here. *)
Inductive ServerError :=
| ExecuteQuery (query : string)
| NotSupported (feat : string).

(** What the frontend sends to the datanode. *)
Inductive Request :=
| DbSelect (sql : string)
| DbInsert (e : InsertExpr)
| AdminCreate (e : CreateExpr).

Inductive Output := AffectedRows (n : nat) | RecordBatches.

Section Instance.

Variable SqlParseError ClientError : Type.
Variable parse : string -> result (list Statement) SqlParseError.
Variable table_idents_to_full_name :
  ObjectName -> result (string * string * string) SqlParseError.
Variable column_def_to_schema : ColumnDef -> result ColumnSchema SqlParseError.
Variable column_data_type : ColumnSchema -> result ColumnDataType unit.
(** The datanode's answer to a request, already converted to an [Output]. *)
Variable datanode : Request -> result Output ClientError.

(** [Iterator::collect::<Result<Vec<_>>>]: the first error wins. *)
Fixpoint collect {A B E} (f : A -> result B E) (l : list A) : result (list B) E :=
  match l with
  | [] => Ok []
  | a :: t =>
      match f a with
      | Err e => Err e
      | Ok b => match collect f t with
                | Err e => Err e
                | Ok bs => Ok (b :: bs)
                end
      end
  end.

Definition columns_to_expr (cds : list ColumnDef) : result (list GrpcColumnDef) Error :=
  match collect (fun c => match column_def_to_schema c with
                          | Ok s => Ok s | Err _ => Err ParseSql end) cds with
  | Err e => Err e
  | Ok schemas =>
      match collect (fun c => match column_data_type c with
                              | Ok d => Ok d | Err _ => Err ColumnDataTypeError end)
              schemas with
      | Err e => Err e
      | Ok dts =>
          Ok (map (fun '(s, d) => {| g_name := cs_name s; g_data_type := d;
                                     g_is_nullable := cs_is_nullable s |})
                (combine schemas dts))
      end
  end.

Definition find_primary_keys (cs : list TableConstraint) : result (list string) Error :=
  Ok (flat_map (fun c => match c with
                         | Unique _ columns true => columns
                         | _ => []
                         end) cs).

(** The [filter_map(..).flatten()] of [find_time_index]. *)
Definition time_index_columns (cs : list TableConstraint) : list string :=
  flat_map (fun c => match c with
                     | Unique (Some n) columns false =>
                         if String.eqb n TIME_INDEX then columns else []
                     | _ => []
                     end) cs.

Definition find_time_index (cs : list TableConstraint) : result string Error :=
  let ti := time_index_columns cs in
  if negb (Nat.eqb (List.length ti) 1)
  then Err (InvalidSql "must have one and only one TimeIndex columns")
  else match ti with
       | c :: _ => Ok c
       | [] => Err (InvalidSql "must have one and only one TimeIndex columns")
       end.

Definition create_to_expr (create : CreateTable) : result CreateExpr Error :=
  match table_idents_to_full_name (ct_name create) with
  | Err _ => Err ParseSql
  | Ok (catalog, schem, table) =>
      match columns_to_expr (ct_columns create) with
      | Err e => Err e
      | Ok cols =>
          match find_time_index (ct_constraints create) with
          | Err e => Err e
          | Ok ti =>
              match find_primary_keys (ct_constraints create) with
              | Err e => Err e
              | Ok pks =>
                  Ok {| catalog_name := catalog; schema_name := schem;
                        table_name := table; column_defs := cols;
                        time_index := ti; primary_keys := pks;
                        create_if_not_exists := ct_if_not_exists create;
                        table_options := [("engine", ct_engine create)] |}
              end
          end
      end
  end.

(** One datanode call, with its result mapped to [ExecuteQuery]. *)
Definition dispatch (query : string) (req : Request)
  : list Request * result Output ServerError :=
  ([req], match datanode req with
          | Ok o => Ok o
          | Err _ => Err (ExecuteQuery query)
          end).

(** [SqlQueryHandler::do_query]: the requests sent to the datanode, in
    order, and the result. *)
Definition do_query (query : string) : list Request * result Output ServerError :=
  match parse query with
  | Err _ => ([], Err (ExecuteQuery query))
  | Ok stmts =>
      if negb (Nat.eqb (List.length stmts) 1) then
        ([], Err (NotSupported "Only one SQL is allowed to be executed at one time."))
      else
        match stmts with
        | [StQuery] => dispatch query (DbSelect query)
        | [StInsert t] => dispatch query (DbInsert {| ie_table_name := t; ie_sql := query |})
        | [StCreate c] =>
            match create_to_expr c with
            | Err _ => ([], Err (ExecuteQuery query))
            | Ok e => dispatch query (AdminCreate e)
            end
        | _ => ([], Err (NotSupported query))
        end
  end.

End Instance.

(** A [table_idents_to_full_name] as the sql crate has it: one, two or
    three identifiers, with the default catalog and schema filled in. *)
Definition full_name_of_idents (o : ObjectName) : result (string * string * string) unit :=
  match o with
  | [t] => Ok ("greptime", "public", t)
  | [s; t] => Ok ("greptime", s, t)
  | [c; s; t] => Ok (c, s, t)
  | _ => Err tt
  end.

(** The concrete collaborators the frontend examples below run with: a
    column definition maps to its schema field by field, and a column type
    to a gRPC data type code. *)
Definition column_schema_of (c : ColumnDef) : result ColumnSchema unit :=
  Ok {| cs_name := cd_name c; cs_data_type := cd_data_type c;
        cs_is_nullable := cd_nullable c |}.

Definition data_type_code (c : ColumnSchema) : result ColumnDataType unit :=
  if String.eqb (cs_data_type c) "STRING" then Ok 12%Z
  else if String.eqb (cs_data_type c) "TIMESTAMP" then Ok 15%Z
  else if String.eqb (cs_data_type c) "DOUBLE" then Ok 10%Z
  else Err tt.

Definition demo_columns : list ColumnDef :=
  [ {| cd_name := "host"; cd_data_type := "STRING"; cd_nullable := true |};
    {| cd_name := "ts"; cd_data_type := "TIMESTAMP"; cd_nullable := true |} ].

Definition time_index_ts : TableConstraint := Unique (Some TIME_INDEX) ["ts"] false.

(** [CREATE TABLE demo(host STRING, ts TIMESTAMP, TIME INDEX (ts))]. *)
Definition demo_create : CreateTable :=
  {| ct_name := ["demo"]; ct_columns := demo_columns;
     ct_constraints := [time_index_ts; Unique None ["host"] true];
     ct_if_not_exists := false; ct_engine := "mito" |}.

(** [CREATE TABLE a.b.c.d(host STRING, ts TIMESTAMP)]: a four-part name and
    no time index, and the same name with one time index. *)
Definition four_part_no_index : CreateTable :=
  {| ct_name := ["a"; "b"; "c"; "d"]; ct_columns := demo_columns;
     ct_constraints := []; ct_if_not_exists := false; ct_engine := "mito" |}.

Definition four_part_one_index : CreateTable :=
  {| ct_name := ["a"; "b"; "c"; "d"]; ct_columns := demo_columns;
     ct_constraints := [time_index_ts]; ct_if_not_exists := false;
     ct_engine := "mito" |}.

(** A parser that reads two statements from any text. *)
Definition parse_two (_ : string) : result (list Statement) unit := Ok [StQuery; StQuery].

Definition answer_all (_ : Request) : result Output unit := Ok (AffectedRows 1).

(** A parser that reads the given statements from any text, and one that
    rejects every text. *)
Definition parse_fixed (stmts : list Statement) (_ : string)
  : result (list Statement) unit := Ok stmts.

Definition parse_fail (_ : string) : result (list Statement) unit := Err tt.

(** A datanode that rejects every request. *)
Definition answer_fail (_ : Request) : result Output unit := Err tt.

(** The gRPC columns [columns_to_expr] gives for [demo_columns]. *)
Definition demo_grpc_columns : list GrpcColumnDef :=
  [ {| g_name := "host"; g_data_type := 12%Z; g_is_nullable := true |};
    {| g_name := "ts"; g_data_type := 15%Z; g_is_nullable := true |} ].

End Frontend.

(** ** src/common/function/src/scalars/timestamp/to_unixtime.rs *)
Module ToUnixtime.

Inductive ConcreteDataType :=
| Int64Type
| StringType
| TimestampMillisecondType
| OtherType (n : nat).

Inductive Volatility := Immutable | Stable | Volatile.

Inductive TypeSignature := Uniform (n : nat) (valid : list ConcreteDataType).

Record Signature := { type_signature : TypeSignature; volatility : Volatility }.

Inductive Value := VNull | VInt64 (z : Z) | VString (s : string).
Definition VectorRef := list Value.

Record FunctionContext := { tz : string }.

(** [common_query::error::Error], abstracted. *)
Inductive QueryError := QueryErr (msg : string).

(** The outcome of a call: a [Result], or a panic. *)
Inductive Outcome (A : Type) :=
| Returns (r : result A QueryError)
| Panics (msg : string).
Arguments Returns {A} r.
Arguments Panics {A} msg.

Record ToUnixtimeFuntion : Type := mkToUnixtimeFuntion {}.

Definition NAME : string := "to_unixtime".

Definition fn_name (_ : ToUnixtimeFuntion) : string := "to_unixtime".

Definition return_type (_ : ToUnixtimeFuntion) (_input_types : list ConcreteDataType)
  : result ConcreteDataType QueryError :=
  Ok TimestampMillisecondType.

Definition signature (_ : ToUnixtimeFuntion) : Signature :=
  {| type_signature := Uniform 1 [Int64Type]; volatility := Immutable |}.

(** [todo!()]. *)
Definition eval (_ : ToUnixtimeFuntion) (_func_ctx : FunctionContext)
  (_columns : list VectorRef) : Outcome VectorRef :=
  Panics "not yet implemented".

End ToUnixtime.

(** * Proofs about the region engine *)
Module RegionFacts.
Import Region ReadWriteTest.

Lemma write_ok_inv wal r b r' resp :
  write wal r b = (r', Ok resp) ->
  validate_batch (metadata r) b = true /\
  committed_seq r' = (committed_seq r + 1)%N /\
  name r' = name r /\ metadata r' = metadata r /\ chunks r' = chunks r /\
  memtable r' = memtable r ++ batch_entries (metadata r) (committed_seq r') b.
Proof.
  unfold write.
  destruct (validate_batch (metadata r) b) eqn:V; simpl; [|congruence].
  destruct (wal (name r) (committed_seq r + 1)%N b); [|congruence].
  intros H; inversion H; subst; simpl; repeat split; reflexivity.
Qed.

Lemma write_err_inv wal r b r' e :
  write wal r b = (r', Err e) -> r' = r.
Proof.
  unfold write.
  destruct (validate_batch (metadata r) b); simpl; [|congruence].
  destruct (wal (name r) (committed_seq r + 1)%N b); congruence.
Qed.

Lemma write_cases wal r b :
  fst (write wal r b) = r \/
  exists resp, write wal r b = (fst (write wal r b), Ok resp).
Proof.
  destruct (write wal r b) as [r' [resp|e]] eqn:W; simpl.
  - right; exists resp; reflexivity.
  - left; eapply write_err_inv; eauto.
Qed.

Lemma step_metadata wal r op : metadata (step wal r op) = metadata r.
Proof.
  destruct op as [b|]; simpl; [|reflexivity].
  destruct (write_cases wal r b) as [->|[resp W]]; [reflexivity|].
  apply write_ok_inv in W; tauto.
Qed.

Lemma step_committed_mono wal r op :
  (committed_seq r <= committed_seq (step wal r op))%N.
Proof.
  destruct op as [b|]; simpl; [|lia].
  destruct (write_cases wal r b) as [->|[resp W]]; [lia|].
  apply write_ok_inv in W; destruct W as (_ & -> & _); lia.
Qed.

Lemma run_cons wal r op ops : run wal r (op :: ops) = run wal (step wal r op) ops.
Proof. reflexivity. Qed.

Lemma run_metadata wal r ops : metadata (run wal r ops) = metadata r.
Proof.
  revert r; induction ops as [|op ops IH]; intros r; [reflexivity|].
  rewrite run_cons, IH; apply step_metadata.
Qed.

Lemma run_committed_mono wal r ops :
  (committed_seq r <= committed_seq (run wal r ops))%N.
Proof.
  revert r; induction ops as [|op ops IH]; intros r; simpl; [lia|].
  specialize (IH (step wal r op)); pose proof (step_committed_mono wal r op); lia.
Qed.

(** **** The test loop of [test_sequence_increase]. *)

Lemma tester_put_single wal r z v :
  metadata r = rw_metadata -> wal (name r) (committed_seq r + 1)%N
                                 [Put (new_put_data [(z, v)])] = true ->
  exists r', tester_put wal r [(z, v)] = Some r' /\
             committed_seq r' = (committed_seq r + 1)%N /\
             metadata r' = rw_metadata.
Proof.
  intros Hm Hw; unfold tester_put, write; rewrite Hm; simpl.
  rewrite Hw.
  eexists; split; [reflexivity|]; simpl; split; reflexivity.
Qed.

Lemma sequence_increase_from_spec r i n :
  metadata r = rw_metadata ->
  sequence_increase_from r i n =
  Some (map (fun k => (committed_seq r + N.of_nat k)%N) (List.seq 1 n)).
Proof.
  revert r i; induction n as [|n IH]; intros r i Hm; [reflexivity|].
  cbn [sequence_increase_from].
  destruct (tester_put_single noop_wal r (Z.of_nat i) (Some 1234%Z) Hm eq_refl)
    as (r' & Hp & Hc & Hm').
  rewrite Hp.
  unfold committed_sequence; rewrite Hc, N.eqb_refl, (IH r' (S i) Hm').
  cbn [List.seq map]; do 2 f_equal.
  rewrite <- (seq_shift n 1), map_map; apply map_ext; intros k; rewrite Hc; lia.
Qed.

Lemma batch_entries_seq m s b :
  Forall (fun e => e_seq e = s) (batch_entries m s b).
Proof.
  unfold batch_entries; apply Forall_forall; intros e He.
  apply in_flat_map in He as [mu [_ He]].
  destruct mu as [data|keys]; simpl in He; apply in_map_iff in He as [x [<- _]];
    reflexivity.
Qed.

(** A step only appends entries, all above the sequence committed before. *)
Lemma step_entries wal r op :
  exists nw, all_entries (step wal r op) = all_entries r ++ nw /\
             Forall (fun e => (committed_seq r < e_seq e)%N) nw /\
             Forall (fun e => (e_seq e <= committed_seq (step wal r op))%N) nw.
Proof.
  destruct op as [b|]; simpl.
  - destruct (write_cases wal r b) as [->|[resp W]].
    + exists []; rewrite app_nil_r; repeat split; constructor.
    + pose proof W as W'; apply write_ok_inv in W'.
      destruct W' as (_ & Hc & _ & _ & Hch & Hmem).
      exists (batch_entries (metadata r) (committed_seq (fst (write wal r b))) b).
      unfold all_entries; rewrite Hch, Hmem, app_assoc; split; [reflexivity|].
      pose proof (batch_entries_seq (metadata r)
                    (committed_seq (fst (write wal r b))) b) as Hs.
      split; eapply Forall_impl; try exact Hs; simpl; intros e ->; lia.
  - exists []; unfold all_entries, flush; simpl.
    rewrite concat_app; simpl; rewrite !app_nil_r; repeat split; constructor.
Qed.

Lemma run_entries wal r ops :
  exists nw, all_entries (run wal r ops) = all_entries r ++ nw /\
             Forall (fun e => (committed_seq r < e_seq e)%N) nw.
Proof.
  revert r; induction ops as [|op ops IH]; intros r.
  - exists []; rewrite app_nil_r; split; [reflexivity | constructor].
  - rewrite run_cons.
    destruct (step_entries wal r op) as (nw1 & E1 & F1 & _).
    destruct (IH (step wal r op)) as (nw2 & E2 & F2).
    exists (nw1 ++ nw2); rewrite E2, E1, app_assoc; split; [reflexivity|].
    apply Forall_app; split; [exact F1|].
    eapply Forall_impl; [|exact F2]; simpl; intros e He.
    pose proof (step_committed_mono wal r op); lia.
Qed.

Lemma run_seq_bounded wal r ops :
  seq_bounded r -> seq_bounded (run wal r ops).
Proof.
  revert r; induction ops as [|op ops IH]; intros r Hb; [exact Hb|].
  rewrite run_cons; apply IH.
  destruct (step_entries wal r op) as (nw & E & _ & F).
  unfold seq_bounded; rewrite E; apply Forall_app; split; [|exact F].
  eapply Forall_impl; [|exact Hb]; simpl; intros e He.
  pose proof (step_committed_mono wal r op); lia.
Qed.

(** **** The merge ignores entries above its bound. *)

Lemma merge_fold_skip bound nw acc :
  Forall (fun e => (bound < e_seq e)%N) nw ->
  fold_left (fun acc e => if (e_seq e <=? bound)%N then upsert e acc else acc)
    nw acc = acc.
Proof.
  revert acc; induction nw as [|e nw IH]; intros acc F; [reflexivity|].
  inversion F as [|? ? He F']; subst; simpl.
  replace (e_seq e <=? bound)%N with false by (symmetry; apply N.leb_gt; lia).
  apply IH, F'.
Qed.

Lemma merge_visible_app bound es nw :
  Forall (fun e => (bound < e_seq e)%N) nw ->
  merge_visible bound (es ++ nw) = merge_visible bound es.
Proof.
  intros F; unfold merge_visible; rewrite fold_left_app; apply merge_fold_skip, F.
Qed.

(** **** Reading a reader to its end. *)

Lemma drain_complete fuel rd :
  List.length (remaining rd) < fuel ->
  exists cs rd', drain fuel rd = Some (cs, rd') /\
                 concat (map chunk_rows cs) = remaining rd /\
                 remaining rd' = [].
Proof.
  revert rd; induction fuel as [|fuel IH]; intros rd Hl; [lia|].
  cbn [drain]; unfold next_chunk.
  destruct (remaining rd) as [|x t] eqn:Er.
  - exists [], rd; split; [reflexivity | split; [reflexivity | exact Er]].
  - set (k := Pos.to_nat (reader_batch_size rd)).
    set (rd1 := {| reader_schema := reader_schema rd; remaining := skipn k (x :: t);
                   reader_batch_size := reader_batch_size rd |}).
    assert (Hk : 1 <= k) by (unfold k; lia).
    destruct (IH rd1) as (cs & rd' & Hd & Hc & He).
    { unfold rd1; simpl; rewrite length_skipn; clearbody rd1 k; simpl length in Hl |- *; lia. }
    rewrite Hd; exists ({| chunk_rows := firstn k (x :: t) |} :: cs), rd'.
    split; [reflexivity|split; [|exact He]].
    simpl; rewrite Hc; unfold rd1; simpl; apply firstn_skipn.
Qed.

Lemma next_chunk_exhausted rd :
  remaining rd = [] -> next_chunk rd = (rd, None).
Proof. intros E; unfold next_chunk; rewrite E; reflexivity. Qed.

(** **** Validation rejects the three kinds of mismatch. *)

Lemma validate_put_mismatch m data :
  put_mismatch m data -> validate_put m data = false.
Proof.
  intros Hmis; destruct (validate_put m data) eqn:V; [exfalso|reflexivity].
  unfold validate_put in V; apply andb_prop in V as [V V3];
    apply andb_prop in V as [V1 V2].
  rewrite forallb_forall in V1, V2.
  destruct Hmis as [(c & col & Hin & Hf) | [(c1 & col1 & c2 & col2 & H1 & H2 & Hl)
                                          | (c & col & cm & Hin & Hf & Hn & Hnone)]].
  - specialize (V1 _ Hin); simpl in V1; rewrite Hf in V1; discriminate.
  - apply V2 in H1; apply V2 in H2; simpl in H1, H2;
      apply Nat.eqb_eq in H1, H2; lia.
  - specialize (V1 _ Hin); simpl in V1; rewrite Hf, Hn in V1; simpl in V1.
    rewrite forallb_forall in V1; specialize (V1 _ Hnone); discriminate.
Qed.

Lemma validate_batch_mismatch m b :
  batch_mismatch m b -> validate_batch m b = false.
Proof.
  intros (data & Hin & Hmis); destruct (validate_batch m b) eqn:V; [|reflexivity].
  unfold validate_batch in V; rewrite forallb_forall in V.
  specialize (V _ Hin); simpl in V; rewrite validate_put_mismatch in V by exact Hmis.
  discriminate.
Qed.

(** **** The merge of entries with distinct keys is an insertion sort. *)

Lemma upsert_hdrel x e t :
  HdRel key_lt x t -> key_lt x e -> HdRel key_lt x (upsert e t).
Proof.
  intros H Hxe; destruct t as [|y t]; simpl; [constructor; exact Hxe|].
  inversion H as [|? ? Hxy]; subst.
  destruct (e_key e <? e_key y)%Z; [constructor; exact Hxe|].
  destruct (e_key e =? e_key y)%Z;
    [destruct (e_seq y <=? e_seq e)%N; constructor; assumption|].
  constructor; exact Hxy.
Qed.

Lemma upsert_sorted e acc : Sorted key_lt acc -> Sorted key_lt (upsert e acc).
Proof.
  induction acc as [|x t IH]; intros Hs; simpl; [repeat constructor|].
  inversion Hs as [|? ? St Hx]; subst.
  destruct (Z.ltb_spec (e_key e) (e_key x)) as [Hlt|Hge].
  - constructor; [exact Hs | constructor; exact Hlt].
  - destruct (Z.eqb_spec (e_key e) (e_key x)) as [Heq|Hne].
    + destruct (e_seq x <=? e_seq e)%N; [|exact Hs].
      constructor; [exact St|].
      destruct t as [|y t]; constructor.
      inversion Hx; subst; unfold key_lt in *; lia.
    + constructor; [apply IH, St|].
      apply upsert_hdrel; [exact Hx | unfold key_lt; lia].
Qed.

Lemma upsert_perm e acc :
  ~ In (e_key e) (map e_key acc) -> Permutation (upsert e acc) (e :: acc).
Proof.
  induction acc as [|x t IH]; intros Hn; simpl; [reflexivity|].
  simpl in Hn.
  destruct (e_key e <? e_key x)%Z; [reflexivity|].
  destruct (Z.eqb_spec (e_key e) (e_key x)) as [Heq|Hne];
    [exfalso; apply Hn; left; congruence|].
  eapply perm_trans; [apply perm_skip, IH; tauto | apply perm_swap].
Qed.

Lemma fold_upsert es acc :
  Sorted key_lt acc -> NoDup (map e_key acc ++ map e_key es) ->
  Sorted key_lt (fold_left (fun acc e => upsert e acc) es acc) /\
  Permutation (fold_left (fun acc e => upsert e acc) es acc) (acc ++ es).
Proof.
  revert acc; induction es as [|e es IH]; intros acc Hs Hnd; simpl.
  - rewrite app_nil_r; split; [exact Hs | reflexivity].
  - assert (Hn : ~ In (e_key e) (map e_key acc)).
    { intros Hi; apply NoDup_remove_2 in Hnd; apply Hnd, in_or_app; left; exact Hi. }
    pose proof (upsert_perm e acc Hn) as P.
    destruct (IH (upsert e acc)) as [S' P'].
    + apply upsert_sorted, Hs.
    + eapply Permutation_NoDup; [|exact Hnd].
      apply Permutation_sym.
      apply perm_trans with ((e_key e :: map e_key acc) ++ map e_key es).
      * apply Permutation_app_tail.
        change (e_key e :: map e_key acc) with (map e_key (e :: acc)).
        apply Permutation_map, P.
      * apply Permutation_middle.
    + split; [exact S'|].
      eapply perm_trans; [exact P'|].
      apply perm_trans with ((e :: acc) ++ es);
        [apply Permutation_app_tail, P | apply Permutation_middle].
Qed.

(** **** The rows [Tester::put] writes. *)

Lemma nth_map_lt {A B} (f : A -> B) (l : list A) d dflt i :
  i < List.length l -> nth i (map f l) dflt = f (nth i l d).
Proof.
  intros Hi; rewrite (nth_indep _ _ (f d)) by (rewrite length_map; exact Hi).
  apply map_nth.
Qed.

Lemma map_seq_nth {A B} (F : nat -> B) (G : A -> B) (d : A) (l : list A) k :
  (forall i, i < List.length l -> F (k + i) = G (nth i l d)) ->
  map F (List.seq k (List.length l)) = map G l.
Proof.
  revert k; induction l as [|a l IH]; intros k H; [reflexivity|].
  simpl; f_equal.
  - specialize (H 0); rewrite Nat.add_0_r in H; apply H; simpl; lia.
  - apply IH; intros i Hi.
    replace (S k + i) with (k + S i) by lia.
    apply (H (S i)); simpl; lia.
Qed.

Lemma test_batch_entries data :
  batch_entries rw_metadata 1%N [Put (new_put_data data)] = map test_entry data.
Proof.
  unfold batch_entries; simpl; rewrite app_nil_r, length_map.
  apply (map_seq_nth _ _ (0%Z, None)); intros i Hi; simpl.
  unfold put_key, put_row, test_entry; simpl.
  rewrite (nth_map_lt (B:=Cell) (fun kv : Z * Cell => Some (fst kv)) data (0%Z, None)
             None i Hi),
    (nth_map_lt (B:=Cell) snd data (0%Z, None) None i Hi); reflexivity.
Qed.

Lemma validate_new_put_data data :
  validate_put rw_metadata (new_put_data data) = true.
Proof.
  unfold validate_put, new_put_data; simpl.
  rewrite !length_map, Nat.eqb_refl; simpl.
  rewrite !andb_true_r.
  apply forallb_forall; intros v Hv; apply in_map_iff in Hv as [kv [<- _]];
    reflexivity.
Qed.

Lemma merge_test_entries data :
  merge_visible 1%N (map test_entry data) =
  fold_left (fun acc e => upsert e acc) (map test_entry data) [].
Proof.
  unfold merge_visible; generalize (@nil Entry) as acc.
  induction data as [|d data IH]; intros acc; [reflexivity|].
  simpl; apply IH.
Qed.

Lemma live_rows_test_entries data :
  live_rows (map test_entry data) = map (fun d => [Some (fst d); snd d]) data.
Proof. induction data as [|d data IH]; simpl; [reflexivity | rewrite IH; reflexivity]. Qed.

Lemma append_rows_test data :
  append_rows (map (fun d => [Some (fst d); snd d]) data) = Some data.
Proof.
  induction data as [|[ts v] data IH]; simpl; [reflexivity | rewrite IH; reflexivity].
Qed.

Lemma append_rows_app l1 l2 :
  append_rows (l1 ++ l2) =
  match append_rows l1, append_rows l2 with
  | Some a, Some b => Some (a ++ b)
  | _, _ => None
  end.
Proof.
  induction l1 as [|row l1 IH]; simpl.
  - destruct (append_rows l2); reflexivity.
  - destruct row as [|[ts|] [|v [|w rest]]]; try reflexivity.
    rewrite IH; destruct (append_rows l1), (append_rows l2); reflexivity.
Qed.

Lemma append_chunks_concat cs :
  append_chunks cs = append_rows (concat (map chunk_rows cs)).
Proof.
  induction cs as [|c cs IH]; [reflexivity|].
  simpl; rewrite append_rows_app, IH; reflexivity.
Qed.

Lemma sorted_test_entries data :
  Sorted key_lt (map test_entry data) ->
  Sorted (fun a b : Z * Cell => (fst a < fst b)%Z) data.
Proof.
  induction data as [|d data IH]; intros Hs; [constructor|].
  inversion Hs as [|? ? Hs' Hd]; subst; constructor; [apply IH, Hs'|].
  destruct data as [|d' data]; constructor.
  inversion Hd; subst; exact H0.
Qed.

End RegionFacts.

(** * The claims *)
Module RegionClaims.
Import Region ReadWriteTest RegionFacts.

(** C1: every successful write batch advances [committed_sequence] by
    exactly one (one sequence number per batch), and the loop of
    [test_sequence_increase] on a fresh region observes the committed
    sequence [1, 2, ..., n] after its [n] single-row puts; with [n = 100]
    the total increase is 100. *)
Theorem committed_sequence_per_batch :
  (forall wal r b r' resp, write wal r b = (r', Ok resp) ->
     committed_sequence r' = (committed_sequence r + 1)%N) /\
  (forall n, test_sequence_increase n = Some (map N.of_nat (List.seq 1 n))).
Proof.
  split.
  - intros wal r b r' resp W; apply write_ok_inv in W; unfold committed_sequence; tauto.
  - intros n; unfold test_sequence_increase.
    rewrite (sequence_increase_from_spec new_region_for_rw 0 n eq_refl); reflexivity.
Qed.

Lemma committed_sequence_per_batch_witness :
  exists r' resp, write noop_wal new_region_for_rw first_put = (r', Ok resp) /\
    committed_sequence r' = (committed_sequence new_region_for_rw + 1)%N.
Proof.
  exists (fst (write noop_wal new_region_for_rw first_put)),
    {| affected_rows := 1 |}.
  split; [reflexivity|].
  apply (proj1 committed_sequence_per_batch noop_wal new_region_for_rw first_put _
           {| affected_rows := 1 |}).
  reflexivity.
Defined.

(** C2: on the fresh test region [(timestamp: time index, v1: nullable
    Int64)], a put of rows with distinct timestamps succeeds, and after
    any successful such put [Tester::full_scan] of a snapshot taken
    afterwards returns those rows exactly (values, nulls included), sorted
    by ascending timestamp. *)
Theorem put_then_full_scan data :
  NoDup (map fst data) ->
  (exists r', tester_put noop_wal new_region_for_rw data = Some r') /\
  (forall wal r', tester_put wal new_region_for_rw data = Some r' ->
     exists out, full_scan r' = Some out /\ Permutation out data /\
                 Sorted (fun a b : Z * Cell => (fst a < fst b)%Z) out).
Proof.
  intros Hnd; split.
  - unfold tester_put, write, validate_batch; cbn [metadata new_region_for_rw new_region].
    cbn [forallb validate_mutation]; rewrite validate_new_put_data.
    eexists; reflexivity.
  - intros wal r' Hp; unfold tester_put in Hp.
    destruct (write wal new_region_for_rw [Put (new_put_data data)])
      as [r1 [resp|e]] eqn:W; [|discriminate].
    injection Hp as <-.
    apply write_ok_inv in W as (_ & Hc & _ & Hm & Hch & Hmem).
    cbn [metadata chunks memtable committed_seq new_region_for_rw new_region] in *.
    simpl in Hc; rewrite Hc, test_batch_entries in Hmem; simpl app in Hmem.
    destruct (fold_upsert (map test_entry data) [] (Sorted_nil _)) as [Hs Hp].
    { simpl; rewrite map_map; exact Hnd. }
    simpl app in Hp; apply Permutation_map_inv in Hp as (out & Hout & Hperm).
    exists out.
    unfold full_scan; cbv zeta.
    set (rd := scan r1 (snapshot r1) default_read_context default_scan_request).
    assert (Hsch : schema_eqb (schema (in_memory_metadata r1)) (reader_schema rd) = true).
    { unfold rd, scan, snapshot, in_memory_metadata; cbn [reader_schema snap_metadata].
      rewrite Hm; reflexivity. }
    rewrite Hsch; cbn [negb].
    destruct (drain_complete (S (List.length (remaining rd))) rd (Nat.lt_succ_diag_r _))
      as (cs & rd' & Hd & Hcat & _).
    rewrite Hd, append_chunks_concat, Hcat.
    assert (Hr : remaining rd = map (fun d => [Some (fst d); snd d]) out).
    { unfold rd, scan, snapshot, all_entries.
      cbn [remaining snap_sequence projection default_scan_request project].
      rewrite Hc, Hch, Hmem, map_id; cbn [concat app].
      rewrite merge_test_entries, Hout; apply live_rows_test_entries. }
    rewrite Hr, append_rows_test.
    split; [reflexivity | split; [apply Permutation_sym, Hperm|]].
    apply sorted_test_entries; rewrite <- Hout; exact Hs.
Qed.

Lemma put_then_full_scan_witness :
  NoDup (map fst simple_put_data) /\
  exists r', tester_put noop_wal new_region_for_rw simple_put_data = Some r'.
Proof.
  assert (H : NoDup (map fst simple_put_data)) by (repeat constructor; simpl; lia).
  split; [exact H | apply (proj1 (put_then_full_scan simple_put_data H))].
Defined.

(** C3: the sequence of a write [W1] (the committed sequence its
    successful call leaves, which every row of it carries) is strictly
    below that of any later successful write [W2], whatever operations ran
    in between; and no sequence of writes and flushes lowers
    [committed_sequence]. *)
Theorem sequence_strictly_increasing :
  (forall wal r b1 r1 resp1 ops b2 r2 resp2,
     write wal r b1 = (r1, Ok resp1) ->
     write wal (run wal r1 ops) b2 = (r2, Ok resp2) ->
     memtable r1 = memtable r ++ batch_entries (metadata r) (committed_sequence r1) b1 /\
     (committed_sequence r1 < committed_sequence r2)%N) /\
  (forall wal r ops,
     (committed_sequence r <= committed_sequence (run wal r ops))%N).
Proof.
  split.
  - intros wal r b1 r1 resp1 ops b2 r2 resp2 W1 W2.
    apply write_ok_inv in W1 as (_ & _ & _ & _ & _ & Hmem).
    apply write_ok_inv in W2 as (_ & Hc2 & _).
    split; [exact Hmem|].
    unfold committed_sequence; rewrite Hc2.
    pose proof (run_committed_mono wal r1 ops); lia.
  - intros wal r ops; apply run_committed_mono.
Qed.

Lemma sequence_strictly_increasing_witness :
  let r1 := fst (write noop_wal new_region_for_rw first_put) in
  let r2 := fst (write noop_wal (run noop_wal r1 []) first_put) in
  (committed_sequence r1 < committed_sequence r2)%N.
Proof.
  intros r1 r2.
  apply (proj1 sequence_strictly_increasing noop_wal new_region_for_rw first_put r1
           {| affected_rows := 1 |} [] first_put r2 {| affected_rows := 1 |});
    reflexivity.
Defined.

(** C4: for a region reached from a fresh one by any writes and flushes,
    a snapshot covers every entry the region holds when it is captured
    (all of them have a sequence at or below the captured bound); whatever
    runs afterwards only adds entries whose sequence is above that bound;
    and a scan through the snapshot, run at any later point, returns exactly
    what it returns at capture time. *)
Theorem snapshot_isolation wal nm m ops ops' ctx req :
  let r := run wal (new_region nm m) ops in
  let s := snapshot r in
  Forall (fun e => (e_seq e <= snap_sequence s)%N) (all_entries r) /\
  (exists nw, all_entries (run wal r ops') = all_entries r ++ nw /\
              Forall (fun e => (snap_sequence s < e_seq e)%N) nw) /\
  scan (run wal r ops') s ctx req = scan r s ctx req.
Proof.
  intros r s.
  assert (Hb : seq_bounded r) by (apply run_seq_bounded; constructor).
  destruct (run_entries wal r ops') as (nw & E & F).
  split; [exact Hb|]; split; [exists nw; split; assumption|].
  unfold scan; rewrite E, merge_visible_app by exact F; reflexivity.
Qed.

(** C5: a batch with a put naming an unknown column, or whose columns
    differ in length, or with a null in a non-nullable column, is rejected
    whole with [SchemaMismatch]: the region is returned unchanged, so its
    committed sequence and its entries stay as they were. *)
Theorem schema_mismatch_rejects_batch wal r b :
  batch_mismatch (metadata r) b ->
  write wal r b = (r, Err SchemaMismatch) /\
  committed_sequence (fst (write wal r b)) = committed_sequence r /\
  all_entries (fst (write wal r b)) = all_entries r.
Proof.
  intros H.
  assert (W : write wal r b = (r, Err SchemaMismatch)).
  { unfold write; rewrite validate_batch_mismatch by exact H; reflexivity. }
  rewrite W; repeat split.
Qed.

Lemma schema_mismatch_rejects_batch_witness :
  batch_mismatch (metadata new_region_for_rw) mixed_batch /\
  write noop_wal new_region_for_rw mixed_batch = (new_region_for_rw, Err SchemaMismatch).
Proof.
  assert (H : batch_mismatch (metadata new_region_for_rw) mixed_batch).
  { eexists; split; [left; reflexivity|].
    left; exists "v9", [Some 3%Z; Some 4%Z]; split; [simpl; tauto | reflexivity]. }
  split; [exact H | apply (proj1 (schema_mismatch_rejects_batch noop_wal _ _ H))].
Defined.

(** C6: the reader of any scan is exhausted by finitely many [next_chunk]
    calls (one more than it has rows): the chunks it emits are, in order,
    exactly the rows visible to the snapshot, and once it has emitted them
    [next_chunk] returns [None] and keeps returning it. *)
Theorem scan_reader_finite r s ctx req :
  let rd := scan r s ctx req in
  exists cs rd', drain (S (List.length (remaining rd))) rd = Some (cs, rd') /\
    concat (map chunk_rows cs) =
      map (project (projection req) None)
        (live_rows (merge_visible (snap_sequence s) (all_entries r))) /\
    next_chunk rd' = (rd', None).
Proof.
  intros rd.
  destruct (drain_complete (S (List.length (remaining rd))) rd (Nat.lt_succ_diag_r _))
    as (cs & rd' & Hd & Hc & He).
  exists cs, rd'; split; [exact Hd|]; split; [exact Hc|].
  apply next_chunk_exhausted, He.
Qed.

(** C8 (as stated, refuted): a scan whose request projects the column [v1]
    reports the projected schema, not the region's. *)
Lemma reader_schema_projection_counterexample :
  reader_schema (scan new_region_for_rw (snapshot new_region_for_rw)
                   default_read_context {| projection := Some [1] |})
  = skipn 1 rw_metadata /\
  schema (in_memory_metadata new_region_for_rw) = rw_metadata /\
  List.length (skipn 1 rw_metadata) = 1 /\ List.length rw_metadata = 2.
Proof. repeat split; reflexivity. Qed.

(** C8 (amended): for a snapshot taken at any point and scanned after any
    later writes and flushes, a scan whose request has no projection (the
    default request of [Tester::full_scan]) reports exactly the schema of
    [in_memory_metadata()]; with a projection it reports the projected
    columns of that schema. *)
Theorem reader_schema_default_scan wal r ops ctx req :
  (projection req = None ->
   reader_schema (scan (run wal r ops) (snapshot r) ctx req) =
   schema (in_memory_metadata (run wal r ops))) /\
  (forall idx, projection req = Some idx ->
   reader_schema (scan (run wal r ops) (snapshot r) ctx req) =
   map (fun i => nth i (schema (in_memory_metadata (run wal r ops))) dummy_column) idx).
Proof.
  unfold scan, snapshot, in_memory_metadata; cbn [reader_schema snap_metadata].
  rewrite run_metadata; split; [intros -> | intros idx ->]; reflexivity.
Qed.

Lemma reader_schema_default_scan_witness :
  projection default_scan_request = None /\
  reader_schema (scan (run noop_wal new_region_for_rw []) (snapshot new_region_for_rw)
                   default_read_context default_scan_request) =
  schema (in_memory_metadata (run noop_wal new_region_for_rw [])).
Proof.
  split; [reflexivity|].
  apply (proj1 (reader_schema_default_scan noop_wal new_region_for_rw []
                  default_read_context default_scan_request)); reflexivity.
Defined.

End RegionClaims.

Module FrontendClaims.
Import Frontend.

(** C7 (as stated, refuted): [create_to_expr] translates the table name
    before it looks at the constraints, so a statement whose name does not
    translate fails with [ParseSql], not [InvalidSql], both without a time
    index and with exactly one. *)
Lemma create_to_expr_name_first_counterexample :
  time_index_columns (ct_constraints four_part_no_index) = [] /\
  create_to_expr unit full_name_of_idents column_schema_of data_type_code
    four_part_no_index = Err ParseSql /\
  time_index_columns (ct_constraints four_part_one_index) = ["ts"] /\
  create_to_expr unit full_name_of_idents column_schema_of data_type_code
    four_part_one_index = Err ParseSql.
Proof. repeat split; reflexivity. Qed.

Lemma find_time_index_spec cs :
  (forall c, find_time_index cs = Ok c -> time_index_columns cs = [c]) /\
  (List.length (time_index_columns cs) <> 1 ->
   find_time_index cs = Err (InvalidSql "must have one and only one TimeIndex columns")) /\
  (forall c, time_index_columns cs = [c] -> find_time_index cs = Ok c).
Proof.
  unfold find_time_index.
  destruct (time_index_columns cs) as [|x [|y t]]; simpl;
    repeat split; intros; try congruence; try lia.
Qed.

(** [columns_to_expr] fails only with the context of one of its two
    conversions. *)
Lemma columns_to_expr_err_forms E cds cdt l err :
  columns_to_expr E cds cdt l = Err err -> err = ParseSql \/ err = ColumnDataTypeError.
Proof.
  unfold columns_to_expr.
  assert (G : forall {A B D} (f : A -> result B Error) (xs : list A) (e : Error),
             (forall a e', f a = Err e' -> e' = D) ->
             collect f xs = Err e -> e = D).
  { intros A B D f xs e Hf; induction xs as [|a t IH]; simpl; [discriminate|].
    destruct (f a) eqn:Fa; [|intros H; injection H as <-; exact (Hf a _ Fa)].
    destruct (collect f t); [discriminate | intros H; injection H as <-; apply IH; reflexivity]. }
  destruct (collect _ l) as [schemas|e] eqn:C1.
  - destruct (collect _ schemas) as [dts|e] eqn:C2; [discriminate|].
    intros H; injection H as <-; right.
    refine (G _ _ _ _ _ _ _ C2); intros a e' Ha.
    destruct (cdt a); [discriminate | injection Ha as <-; reflexivity].
  - intros H; injection H as <-; left.
    refine (G _ _ _ _ _ _ _ C1); intros a e' Ha.
    destruct (cds a); [discriminate | injection Ha as <-; reflexivity].
Qed.

(** C7 (amended): whenever [create_to_expr] succeeds, the statement's
    constraints designate exactly one time-index column and it is the
    expression's time index; when they designate a number other than one,
    the translation fails; and when the table name and the column
    definitions translate, that failure is [InvalidSql], while exactly one
    designated column makes the translation succeed with it as time index;
    when the table name does not translate the failure is [ParseSql], and
    when the name translates but the columns do not, the failure is the
    [ParseSql] or [ColumnDataTypeError] of [columns_to_expr], never
    [InvalidSql]. *)
Theorem create_to_expr_time_index E tif cds cdt create :
  let ti := time_index_columns (ct_constraints create) in
  (forall e, create_to_expr E tif cds cdt create = Ok e -> ti = [time_index e]) /\
  (List.length ti <> 1 -> exists err, create_to_expr E tif cds cdt create = Err err) /\
  (forall names cols,
     tif (ct_name create) = Ok names ->
     columns_to_expr E cds cdt (ct_columns create) = Ok cols ->
     (List.length ti <> 1 ->
      create_to_expr E tif cds cdt create =
      Err (InvalidSql "must have one and only one TimeIndex columns")) /\
     (forall c, ti = [c] ->
      exists e, create_to_expr E tif cds cdt create = Ok e /\ time_index e = c)) /\
  ((exists pe, tif (ct_name create) = Err pe) ->
   create_to_expr E tif cds cdt create = Err ParseSql) /\
  (forall names err,
     tif (ct_name create) = Ok names ->
     columns_to_expr E cds cdt (ct_columns create) = Err err ->
     (err = ParseSql \/ err = ColumnDataTypeError) /\
     create_to_expr E tif cds cdt create = Err err).
Proof.
  intros ti.
  destruct (find_time_index_spec (ct_constraints create)) as (F1 & F2 & F3).
  unfold create_to_expr; split; [|split].
  - intros e.
    destruct (tif (ct_name create)) as [[[ca sc] tb]|]; [|discriminate].
    destruct (columns_to_expr E cds cdt (ct_columns create)); [|discriminate].
    destruct (find_time_index (ct_constraints create)) as [c|] eqn:Ef; [|discriminate].
    intros H; injection H as <-; simpl; apply F1; reflexivity.
  - intros Hl.
    destruct (tif (ct_name create)) as [[[ca sc] tb]|]; [|eexists; reflexivity].
    destruct (columns_to_expr E cds cdt (ct_columns create)); [|eexists; reflexivity].
    rewrite (F2 Hl); eexists; reflexivity.
  - split; [|split].
    + intros [[ca sc] tb] cols Ht Hc; rewrite Ht, Hc; split.
      * intros Hl; rewrite (F2 Hl); reflexivity.
      * intros c Hti; rewrite (F3 c Hti); eexists; split; reflexivity.
    + intros [pe Hpe]; rewrite Hpe; reflexivity.
    + intros [[ca sc] tb] err Ht Hc; rewrite Ht, Hc; split; [|reflexivity].
      exact (columns_to_expr_err_forms E cds cdt _ _ Hc).
Qed.

Lemma create_to_expr_time_index_witness :
  full_name_of_idents (ct_name demo_create) = Ok ("greptime", "public", "demo") /\
  (exists e, create_to_expr unit full_name_of_idents column_schema_of data_type_code
               demo_create = Ok e /\ time_index e = "ts") /\
  full_name_of_idents (ct_name four_part_one_index) = Err tt /\
  create_to_expr unit full_name_of_idents column_schema_of data_type_code
    four_part_one_index = Err ParseSql.
Proof.
  split; [reflexivity|]; split.
  - destruct (columns_to_expr unit column_schema_of data_type_code demo_columns)
      as [cols|err] eqn:Hc; [|discriminate].
    apply (proj1 (proj2 (proj2 (create_to_expr_time_index unit full_name_of_idents
                                  column_schema_of data_type_code demo_create)))
                 ("greptime", "public", "demo") cols eq_refl Hc); reflexivity.
  - split; [reflexivity|].
    apply (proj1 (proj2 (proj2 (proj2 (create_to_expr_time_index unit full_name_of_idents
                                         column_schema_of data_type_code
                                         four_part_one_index))))).
    exists tt; reflexivity.
Defined.

(** C10: when the SQL text parses to a number of statements other than
    one, [do_query] answers [NotSupported] and sends nothing to the
    datanode; a single statement that is not a query, an insert or a create
    is answered with [NotSupported] as well, again sending nothing. *)
Theorem do_query_not_supported SE CE parse tif cds cdt dn query stmts :
  parse query = Ok stmts ->
  (List.length stmts <> 1 ->
   do_query SE CE parse tif cds cdt dn query =
   ([], Err (NotSupported "Only one SQL is allowed to be executed at one time."))) /\
  (forall st, stmts = [st] ->
   match st with StQuery | StInsert _ | StCreate _ => False | _ => True end ->
   do_query SE CE parse tif cds cdt dn query = ([], Err (NotSupported query))).
Proof.
  intros Hp; unfold do_query; rewrite Hp; split.
  - intros Hl; apply Nat.eqb_neq in Hl; rewrite Hl; reflexivity.
  - intros st -> Hst; destruct st; try contradiction; reflexivity.
Qed.

Lemma do_query_not_supported_witness :
  parse_two "select 1; select 2" = Ok [StQuery; StQuery] /\
  do_query unit unit parse_two full_name_of_idents column_schema_of data_type_code
    answer_all "select 1; select 2" =
  ([], Err (NotSupported "Only one SQL is allowed to be executed at one time.")).
Proof.
  split; [reflexivity|].
  apply (proj1 (do_query_not_supported unit unit parse_two full_name_of_idents
                  column_schema_of data_type_code answer_all "select 1; select 2"
                  [StQuery; StQuery] eq_refl)).
  simpl; lia.
Defined.

End FrontendClaims.

Module ToUnixtimeClaims.
Import ToUnixtime.

(** C9: [ToUnixtimeFuntion::eval] panics ([todo!()]) on every function
    context and every input columns, so it never returns a value, while
    [name()] is ["to_unixtime"] and [return_type] is
    [Ok(timestamp_millisecond)] whatever the input types. *)
Theorem to_unixtime_unevaluable (f : ToUnixtimeFuntion) ctx cols tys :
  eval f ctx cols = Panics "not yet implemented" /\
  (forall r, eval f ctx cols = Returns r -> False) /\
  fn_name f = "to_unixtime" /\
  return_type f tys = Ok TimestampMillisecondType.
Proof. repeat split; discriminate. Qed.

End ToUnixtimeClaims.

Module FrontendFacts.
Import Frontend.

Lemma collect_ok {A B E} (f : A -> result B E) l bs :
  collect f l = Ok bs -> Forall2 (fun a b => f a = Ok b) l bs.
Proof.
  revert bs; induction l as [|a t IH]; simpl; intros bs H.
  - injection H as <-; constructor.
  - destruct (f a) as [b|e] eqn:Fa; [|discriminate].
    destruct (collect f t) as [bs'|e] eqn:Ct; [|discriminate].
    injection H as <-; constructor; [exact Fa | apply IH; reflexivity].
Qed.

Lemma collect_err {A B E} (f : A -> result B E) l e :
  collect f l = Err e -> exists a, In a l /\ f a = Err e.
Proof.
  induction l as [|a t IH]; simpl; intros H; [discriminate|].
  destruct (f a) as [b|e'] eqn:Fa.
  - destruct (collect f t) as [bs'|e'] eqn:Ct; [discriminate|].
    injection H as <-; destruct IH as [x [Hx Fx]]; [reflexivity|].
    exists x; split; [right; exact Hx | exact Fx].
  - injection H as <-; exists a; split; [left; reflexivity | exact Fa].
Qed.

Lemma collect_some_err {A B E} (f : A -> result B E) l a e :
  In a l -> f a = Err e -> exists e', collect f l = Err e'.
Proof.
  induction l as [|x t IH]; simpl; intros Hin Fa; [contradiction|].
  destruct Hin as [<-|Hin].
  - rewrite Fa; exists e; reflexivity.
  - destruct (f x) as [b|e'].
    + destruct IH as [e' He']; [exact Hin | exact Fa | rewrite He'; exists e'; reflexivity].
    + exists e'; reflexivity.
Qed.

Lemma collect_all_ok {A B E} (f : A -> result B E) l :
  (forall a, In a l -> exists b, f a = Ok b) -> exists bs, collect f l = Ok bs.
Proof.
  induction l as [|a t IH]; simpl; intros H; [exists []; reflexivity|].
  destruct (H a (or_introl eq_refl)) as [b Hb]; rewrite Hb.
  destruct IH as [bs Hbs]; [intros x Hx; apply H; right; exact Hx|].
  rewrite Hbs; exists (b :: bs); reflexivity.
Qed.

Lemma Forall2_in_image {A B E} (f : A -> result B E) l bs a b :
  Forall2 (fun a b => f a = Ok b) l bs -> In a l -> f a = Ok b -> In b bs.
Proof.
  induction 1 as [|x y l' bs' Hxy _ IH]; simpl; [contradiction|].
  intros [<-|Hin] Fa.
  - left; rewrite Hxy in Fa; injection Fa as ->; reflexivity.
  - right; apply IH; assumption.
Qed.

Lemma map_fst_combine {A B} (l : list A) (l' : list B) :
  length l = length l' -> map fst (combine l l') = l.
Proof.
  revert l'; induction l as [|a t IH]; intros [|b t'] H; simpl in *;
    try discriminate; [reflexivity|].
  f_equal; apply IH; injection H as H; exact H.
Qed.

Lemma map_snd_combine {A B} (l : list A) (l' : list B) :
  length l = length l' -> map snd (combine l l') = l'.
Proof.
  revert l'; induction l as [|a t IH]; intros [|b t'] H; simpl in *;
    try discriminate; [reflexivity|].
  f_equal; apply IH; injection H as H; exact H.
Qed.

Lemma time_index_columns_app cs1 cs2 :
  time_index_columns (cs1 ++ cs2) = time_index_columns cs1 ++ time_index_columns cs2.
Proof. unfold time_index_columns; apply flat_map_app. Qed.

End FrontendFacts.

Module FrontendExtras.
Import Frontend FrontendFacts.

(** X1: [find_primary_keys] never fails, and on two lists of constraints
    put one after the other it returns the primary-key columns of the
    first list followed by those of the second. *)
Theorem find_primary_keys_app cs1 cs2 :
  exists pk1 pk2,
    find_primary_keys cs1 = Ok pk1 /\ find_primary_keys cs2 = Ok pk2 /\
    find_primary_keys (cs1 ++ cs2) = Ok (pk1 ++ pk2).
Proof.
  unfold find_primary_keys; do 2 eexists; split; [reflexivity|]; split; [reflexivity|].
  rewrite flat_map_app; reflexivity.
Qed.

(** X2: a constraint that is not a [PRIMARY KEY] (a [TIME INDEX], an
    unnamed or named non-primary [UNIQUE], a foreign key or a check) adds no
    column to the result of [find_primary_keys]. *)
Theorem find_primary_keys_skip_non_primary c cs :
  (forall n cols, c <> Unique n cols true) ->
  find_primary_keys (c :: cs) = find_primary_keys cs.
Proof.
  intros Hc; unfold find_primary_keys; simpl.
  destruct c as [n cols [|]| |]; try reflexivity.
  exfalso; exact (Hc n cols eq_refl).
Qed.

(** X3: inserting anywhere a constraint that designates no time-index
    column (a primary key, a constraint with another name or no name, a
    foreign key, a check) does not change what [find_time_index] returns. *)
Theorem find_time_index_insert_unrelated cs1 c cs2 :
  time_index_columns [c] = [] ->
  find_time_index (cs1 ++ c :: cs2) = find_time_index (cs1 ++ cs2).
Proof.
  intros Hc; unfold find_time_index.
  replace (c :: cs2) with ([c] ++ cs2) by reflexivity.
  rewrite !time_index_columns_app, Hc; reflexivity.
Qed.

(** X4: once the constraints designate one time-index column, adding a
    further [TIME INDEX] constraint with at least one column makes
    [find_time_index] fail with [InvalidSql], even when it names the same
    column again. *)
Theorem find_time_index_second_index_fails cs c x xs :
  time_index_columns cs = [c] ->
  find_time_index (cs ++ [Unique (Some TIME_INDEX) (x :: xs) false]) =
  Err (InvalidSql "must have one and only one TimeIndex columns").
Proof.
  intros Hc; unfold find_time_index.
  rewrite time_index_columns_app, Hc; reflexivity.
Qed.

(** X5: when [columns_to_expr] succeeds it returns one gRPC column per
    column definition, in order; the name and nullability of each come from
    the column's schema given by [column_def_to_schema], and its data type
    from converting that schema's type. *)
Theorem columns_to_expr_ok SqlParseError
    (column_def_to_schema : ColumnDef -> result ColumnSchema SqlParseError)
    (column_data_type : ColumnSchema -> result ColumnDataType unit) cds out :
  columns_to_expr SqlParseError column_def_to_schema column_data_type cds = Ok out ->
  length out = length cds /\
  exists schemas dts,
    Forall2 (fun cd s => column_def_to_schema cd = Ok s) cds schemas /\
    Forall2 (fun s d => column_data_type s = Ok d) schemas dts /\
    map g_name out = map cs_name schemas /\
    map g_is_nullable out = map cs_is_nullable schemas /\
    map g_data_type out = dts.
Proof.
  unfold columns_to_expr.
  destruct (collect _ cds) as [schemas|e] eqn:C1; [|discriminate].
  destruct (collect _ schemas) as [dts|e] eqn:C2; [|discriminate].
  intros H; injection H as <-.
  apply collect_ok in C1; apply collect_ok in C2.
  assert (L1 := Forall2_length C1); assert (L2 := Forall2_length C2).
  split.
  - rewrite length_map, length_combine, <- L2, Nat.min_id; symmetry; exact L1.
  - exists schemas, dts; split; [|split; [|split; [|split]]].
    + eapply Forall2_impl; [|exact C1]; intros cd s Hs; simpl in Hs.
      destruct (column_def_to_schema cd); [injection Hs as ->; reflexivity | discriminate].
    + eapply Forall2_impl; [|exact C2]; intros s d Hd; simpl in Hd.
      destruct (column_data_type s); [injection Hd as ->; reflexivity | discriminate].
    + transitivity (map cs_name (map fst (combine schemas dts))).
      * rewrite !map_map; apply map_ext; intros [s d]; reflexivity.
      * rewrite (map_fst_combine schemas dts L2); reflexivity.
    + transitivity (map cs_is_nullable (map fst (combine schemas dts))).
      * rewrite !map_map; apply map_ext; intros [s d]; reflexivity.
      * rewrite (map_fst_combine schemas dts L2); reflexivity.
    + transitivity (map snd (combine schemas dts)).
      * rewrite map_map; apply map_ext; intros [s d]; reflexivity.
      * exact (map_snd_combine schemas dts L2).
Qed.

(** X6: [columns_to_expr] fails with [ParseSql] as soon as one column
    definition has no schema, whatever the data types of the others;
    when every column has a schema but one schema's type has no gRPC data
    type, it fails with [ColumnDataTypeError]. *)
Theorem columns_to_expr_errors SqlParseError
    (column_def_to_schema : ColumnDef -> result ColumnSchema SqlParseError)
    (column_data_type : ColumnSchema -> result ColumnDataType unit) cds :
  ((exists cd e, In cd cds /\ column_def_to_schema cd = Err e) ->
   columns_to_expr SqlParseError column_def_to_schema column_data_type cds = Err ParseSql) /\
  ((forall cd, In cd cds -> exists s, column_def_to_schema cd = Ok s) ->
   (exists cd s, In cd cds /\ column_def_to_schema cd = Ok s /\
                 column_data_type s = Err tt) ->
   columns_to_expr SqlParseError column_def_to_schema column_data_type cds =
   Err ColumnDataTypeError).
Proof.
  unfold columns_to_expr; split.
  - intros [cd [e [Hin He]]].
    destruct (collect_some_err
                (fun c => match column_def_to_schema c with
                          | Ok s => Ok s | Err _ => Err ParseSql end)
                cds cd ParseSql Hin) as [e' He']; [cbv beta; rewrite He; reflexivity|].
    rewrite He'; destruct (collect_err _ _ _ He') as [a [_ Ha]].
    destruct (column_def_to_schema a); [discriminate | injection Ha as <-; reflexivity].
  - intros Hall [cd [s [Hin [Hs Hd]]]].
    destruct (collect_all_ok
                (fun c => match column_def_to_schema c with
                          | Ok s => Ok s | Err _ => Err ParseSql end) cds)
      as [schemas Hsch].
    { intros a Ha; destruct (Hall a Ha) as [b Hb]; rewrite Hb; exists b; reflexivity. }
    rewrite Hsch.
    assert (Hin' : In s schemas).
    { eapply Forall2_in_image; [exact (collect_ok _ _ _ Hsch) | exact Hin | cbv beta; rewrite Hs; reflexivity]. }
    destruct (collect_some_err
                (fun c => match column_data_type c with
                          | Ok d => Ok d | Err _ => Err ColumnDataTypeError end)
                schemas s ColumnDataTypeError Hin') as [e' He']; [cbv beta; rewrite Hd; reflexivity|].
    rewrite He'; destruct (collect_err _ _ _ He') as [a [_ Ha]].
    destruct (column_data_type a); [discriminate | injection Ha as <-; reflexivity].
Qed.

(** X7: when [create_to_expr] succeeds, the expression's catalog, schema
    and table are those [table_idents_to_full_name] gives for the table
    name, its columns are those of [columns_to_expr], its primary keys
    those of [find_primary_keys], [create_if_not_exists] is copied from the
    statement, and the only table option is the engine. *)
Theorem create_to_expr_fields SqlParseError table_idents_to_full_name
    column_def_to_schema column_data_type create e :
  create_to_expr SqlParseError table_idents_to_full_name column_def_to_schema
    column_data_type create = Ok e ->
  table_idents_to_full_name (ct_name create) =
    Ok (catalog_name e, schema_name e, table_name e) /\
  columns_to_expr SqlParseError column_def_to_schema column_data_type
    (ct_columns create) = Ok (column_defs e) /\
  find_time_index (ct_constraints create) = Ok (time_index e) /\
  find_primary_keys (ct_constraints create) = Ok (primary_keys e) /\
  create_if_not_exists e = ct_if_not_exists create /\
  table_options e = [("engine", ct_engine create)].
Proof.
  unfold create_to_expr.
  destruct (table_idents_to_full_name (ct_name create)) as [[[cat sch] tbl]|] eqn:T;
    [|discriminate].
  destruct (columns_to_expr _ _ _ _) as [cols|err] eqn:Cc; [|discriminate].
  destruct (find_time_index _) as [ti|err] eqn:Ti; [|discriminate].
  destruct (find_primary_keys _) as [pks|err] eqn:Pk; [|discriminate].
  intros H; injection H as <-; simpl.
  repeat split; reflexivity.
Qed.

(** X8: [create_to_expr] checks the table name first, then the columns,
    then the time index: an unresolvable table name gives [ParseSql], and
    with a resolvable name an error of [columns_to_expr] is returned as is,
    whatever the constraints are. *)
Theorem create_to_expr_error_order SqlParseError table_idents_to_full_name
    column_def_to_schema column_data_type create :
  ((exists pe, table_idents_to_full_name (ct_name create) = Err pe) ->
   create_to_expr SqlParseError table_idents_to_full_name column_def_to_schema
     column_data_type create = Err ParseSql) /\
  (forall names err,
   table_idents_to_full_name (ct_name create) = Ok names ->
   columns_to_expr SqlParseError column_def_to_schema column_data_type
     (ct_columns create) = Err err ->
   create_to_expr SqlParseError table_idents_to_full_name column_def_to_schema
     column_data_type create = Err err).
Proof.
  unfold create_to_expr; split.
  - intros [pe Hpe]; rewrite Hpe; reflexivity.
  - intros [[cat sch] tbl] err Hn Hc; rewrite Hn, Hc; reflexivity.
Qed.

(** X9: [do_query] sends at most one request to the datanode, whatever the
    query text, the parser and the datanode's answers. *)
Theorem do_query_at_most_one_request SqlParseError ClientError parse
    table_idents_to_full_name column_def_to_schema column_data_type datanode query :
  length (fst (do_query SqlParseError ClientError parse table_idents_to_full_name
                 column_def_to_schema column_data_type datanode query)) <= 1.
Proof.
  unfold do_query.
  destruct (parse query) as [stmts|]; simpl; [|lia].
  destruct (negb (Nat.eqb (length stmts) 1)); simpl; [lia|].
  destruct stmts as [|[| t | c | | | ] [|]]; simpl; try lia.
  destruct (create_to_expr _ _ _ _ c); simpl; lia.
Qed.

(** X10: when the query does not parse, [do_query] sends nothing and fails
    with [ExecuteQuery] carrying the query text. *)
Theorem do_query_parse_error SqlParseError ClientError parse
    table_idents_to_full_name column_def_to_schema column_data_type datanode query pe :
  parse query = Err pe ->
  do_query SqlParseError ClientError parse table_idents_to_full_name
    column_def_to_schema column_data_type datanode query =
  ([], Err (ExecuteQuery query)).
Proof. intros H; unfold do_query; rewrite H; reflexivity. Qed.

(** X11: a query text that parses to one query statement is sent to the
    datanode once, as a select of the whole text; the datanode's output is
    returned unchanged and its error becomes [ExecuteQuery] of the text. *)
Theorem do_query_select SqlParseError ClientError parse
    table_idents_to_full_name column_def_to_schema column_data_type datanode query :
  parse query = Ok [StQuery] ->
  do_query SqlParseError ClientError parse table_idents_to_full_name
    column_def_to_schema column_data_type datanode query =
  ([DbSelect query],
   match datanode (DbSelect query) with
   | Ok o => Ok o
   | Err _ => Err (ExecuteQuery query)
   end).
Proof. intros H; unfold do_query; rewrite H; reflexivity. Qed.

(** X12: a query text that parses to one insert statement is sent to the
    datanode once, as an insert into that statement's table carrying the
    whole text; the datanode's output is returned unchanged and its error
    becomes [ExecuteQuery] of the text. *)
Theorem do_query_insert SqlParseError ClientError parse
    table_idents_to_full_name column_def_to_schema column_data_type datanode query t :
  parse query = Ok [StInsert t] ->
  do_query SqlParseError ClientError parse table_idents_to_full_name
    column_def_to_schema column_data_type datanode query =
  let req := DbInsert {| ie_table_name := t; ie_sql := query |} in
  ([req],
   match datanode req with
   | Ok o => Ok o
   | Err _ => Err (ExecuteQuery query)
   end).
Proof. intros H; unfold do_query; rewrite H; reflexivity. Qed.

(** X13: for a query text that parses to one [CREATE TABLE], [do_query]
    sends nothing and fails with [ExecuteQuery] of the text when
    [create_to_expr] fails; when it succeeds, the resulting expression is
    sent to the datanode once and the datanode's error becomes
    [ExecuteQuery] of the text. *)
Theorem do_query_create SqlParseError ClientError parse
    table_idents_to_full_name column_def_to_schema column_data_type datanode query c :
  parse query = Ok [StCreate c] ->
  ((exists err, create_to_expr SqlParseError table_idents_to_full_name
                  column_def_to_schema column_data_type c = Err err) ->
   do_query SqlParseError ClientError parse table_idents_to_full_name
     column_def_to_schema column_data_type datanode query =
   ([], Err (ExecuteQuery query))) /\
  (forall e, create_to_expr SqlParseError table_idents_to_full_name
               column_def_to_schema column_data_type c = Ok e ->
   do_query SqlParseError ClientError parse table_idents_to_full_name
     column_def_to_schema column_data_type datanode query =
   ([AdminCreate e],
    match datanode (AdminCreate e) with
    | Ok o => Ok o
    | Err _ => Err (ExecuteQuery query)
    end)).
Proof.
  intros H; unfold do_query; rewrite H; simpl; split.
  - intros [err He]; rewrite He; reflexivity.
  - intros e He; rewrite He; reflexivity.
Qed.

(** X14: every error [do_query] returns is [ExecuteQuery] of the query
    text, or [NotSupported] naming either the query text (an unsupported
    statement) or the one-statement limit. *)
Theorem do_query_error_forms SqlParseError ClientError parse
    table_idents_to_full_name column_def_to_schema column_data_type datanode query err :
  snd (do_query SqlParseError ClientError parse table_idents_to_full_name
         column_def_to_schema column_data_type datanode query) = Err err ->
  err = ExecuteQuery query \/ err = NotSupported query \/
  err = NotSupported "Only one SQL is allowed to be executed at one time.".
Proof.
  unfold do_query, dispatch.
  destruct (parse query) as [stmts|];
    [|intros H; injection H as <-; left; reflexivity].
  destruct (negb (Nat.eqb (length stmts) 1));
    [intros H; injection H as <-; right; right; reflexivity|].
  destruct stmts as [|[| t | c | | | ] [|]];
    try (destruct (create_to_expr _ _ _ _ c));
    try (destruct (datanode _));
    intros H; simpl in H; try discriminate; injection H as <-; tauto.
Qed.

(** Witnesses of the extras above. *)
Lemma find_primary_keys_skip_non_primary_witness :
  (forall n cols, time_index_ts <> Unique n cols true) /\
  find_primary_keys [time_index_ts; Unique None ["host"] true] =
  find_primary_keys [Unique None ["host"] true].
Proof.
  split; [intros n cols H; discriminate H|].
  apply find_primary_keys_skip_non_primary; intros n cols H; discriminate H.
Defined.

Lemma find_time_index_insert_unrelated_witness :
  time_index_columns [Unique None ["host"] true] = [] /\
  find_time_index ([] ++ Unique None ["host"] true :: [time_index_ts]) =
  find_time_index ([] ++ [time_index_ts]).
Proof.
  split; [reflexivity|].
  apply find_time_index_insert_unrelated; reflexivity.
Defined.

Lemma find_time_index_second_index_fails_witness :
  time_index_columns [time_index_ts] = ["ts"] /\
  find_time_index ([time_index_ts] ++ [Unique (Some TIME_INDEX) ["ts"] false]) =
  Err (InvalidSql "must have one and only one TimeIndex columns").
Proof.
  split; [reflexivity|].
  apply (find_time_index_second_index_fails [time_index_ts] "ts"); reflexivity.
Defined.

Lemma columns_to_expr_ok_witness :
  columns_to_expr unit column_schema_of data_type_code demo_columns =
    Ok demo_grpc_columns /\
  length demo_grpc_columns = length demo_columns /\
  exists schemas dts,
    Forall2 (fun cd s => column_schema_of cd = Ok s) demo_columns schemas /\
    Forall2 (fun s d => data_type_code s = Ok d) schemas dts /\
    map g_name demo_grpc_columns = map cs_name schemas /\
    map g_is_nullable demo_grpc_columns = map cs_is_nullable schemas /\
    map g_data_type demo_grpc_columns = dts.
Proof.
  split; [reflexivity|].
  apply columns_to_expr_ok; reflexivity.
Defined.

Lemma create_to_expr_fields_witness :
  let e := {| catalog_name := "greptime"; schema_name := "public";
              table_name := "demo"; column_defs := demo_grpc_columns;
              time_index := "ts"; primary_keys := ["host"];
              create_if_not_exists := false;
              table_options := [("engine", "mito")] |} in
  create_to_expr unit full_name_of_idents column_schema_of data_type_code
    demo_create = Ok e /\
  full_name_of_idents (ct_name demo_create) =
    Ok (catalog_name e, schema_name e, table_name e) /\
  columns_to_expr unit column_schema_of data_type_code
    (ct_columns demo_create) = Ok (column_defs e) /\
  find_time_index (ct_constraints demo_create) = Ok (time_index e) /\
  find_primary_keys (ct_constraints demo_create) = Ok (primary_keys e) /\
  create_if_not_exists e = ct_if_not_exists demo_create /\
  table_options e = [("engine", ct_engine demo_create)].
Proof.
  intros e; split; [reflexivity|].
  apply create_to_expr_fields; reflexivity.
Defined.

Lemma do_query_parse_error_witness :
  parse_fail "selec 1" = Err tt /\
  do_query unit unit parse_fail full_name_of_idents column_schema_of data_type_code
    answer_all "selec 1" = ([], Err (ExecuteQuery "selec 1")).
Proof.
  split; [reflexivity|].
  apply (do_query_parse_error unit unit parse_fail full_name_of_idents
           column_schema_of data_type_code answer_all "selec 1" tt); reflexivity.
Defined.

Lemma do_query_select_witness :
  parse_fixed [StQuery] "select * from demo" = Ok [StQuery] /\
  do_query unit unit (parse_fixed [StQuery]) full_name_of_idents column_schema_of
    data_type_code answer_fail "select * from demo" =
  ([DbSelect "select * from demo"], Err (ExecuteQuery "select * from demo")).
Proof.
  split; [reflexivity|].
  apply (do_query_select unit unit (parse_fixed [StQuery]) full_name_of_idents
           column_schema_of data_type_code answer_fail "select * from demo");
    reflexivity.
Defined.

Lemma do_query_insert_witness :
  parse_fixed [StInsert "demo"] "insert into demo values('a', 1)" =
    Ok [StInsert "demo"] /\
  do_query unit unit (parse_fixed [StInsert "demo"]) full_name_of_idents
    column_schema_of data_type_code answer_all "insert into demo values('a', 1)" =
  ([DbInsert {| ie_table_name := "demo"; ie_sql := "insert into demo values('a', 1)" |}],
   Ok (AffectedRows 1)).
Proof.
  split; [reflexivity|].
  apply (do_query_insert unit unit (parse_fixed [StInsert "demo"]) full_name_of_idents
           column_schema_of data_type_code answer_all "insert into demo values('a', 1)"
           "demo"); reflexivity.
Defined.

Lemma do_query_create_witness :
  parse_fixed [StCreate four_part_no_index] "create table a.b.c.d" =
    Ok [StCreate four_part_no_index] /\
  (exists err, create_to_expr unit full_name_of_idents column_schema_of data_type_code
                 four_part_no_index = Err err) /\
  do_query unit unit (parse_fixed [StCreate four_part_no_index]) full_name_of_idents
    column_schema_of data_type_code answer_all "create table a.b.c.d" =
  ([], Err (ExecuteQuery "create table a.b.c.d")).
Proof.
  split; [reflexivity|]; split; [eexists; reflexivity|].
  apply (proj1 (do_query_create unit unit (parse_fixed [StCreate four_part_no_index])
                  full_name_of_idents column_schema_of data_type_code answer_all
                  "create table a.b.c.d" four_part_no_index eq_refl)).
  eexists; reflexivity.
Defined.

Lemma do_query_error_forms_witness :
  snd (do_query unit unit (parse_fixed [StAlter]) full_name_of_idents column_schema_of
         data_type_code answer_all "alter table demo") =
    Err (NotSupported "alter table demo") /\
  (NotSupported "alter table demo" = ExecuteQuery "alter table demo" \/
   NotSupported "alter table demo" = NotSupported "alter table demo" \/
   NotSupported "alter table demo" =
     NotSupported "Only one SQL is allowed to be executed at one time.").
Proof.
  split; [reflexivity|].
  apply (do_query_error_forms unit unit (parse_fixed [StAlter]) full_name_of_idents
           column_schema_of data_type_code answer_all "alter table demo"); reflexivity.
Defined.

End FrontendExtras.

Module ReadWriteExtras.
Import Region ReadWriteTest RegionFacts.

(** X15: [append_chunk_to], the way [Tester::full_scan] collects rows,
    accepts exactly the rows made of a non-null timestamp and a value, and
    then gives back each row's timestamp and value in order; any row of
    another width or with a null timestamp makes it panic. *)
Theorem append_rows_round_trip rows out :
  append_rows rows = Some out <-> rows = map (fun d => [Some (fst d); snd d]) out.
Proof.
  split.
  - revert out; induction rows as [|row t IH]; simpl; intros out H.
    + injection H as <-; reflexivity.
    + destruct row as [|[ts|] [|v [|]]]; try discriminate.
      destruct (append_rows t) as [l|] eqn:Ht; [|discriminate].
      injection H as <-; simpl; f_equal; apply IH; reflexivity.
  - intros ->; apply append_rows_test.
Qed.

(** X16: the rows [Tester::full_scan] collects do not depend on how the
    reader splits them into chunks: two chunk lists holding the same rows
    in the same order give the same result. *)
Theorem append_chunks_split_invariant cs1 cs2 :
  concat (map chunk_rows cs1) = concat (map chunk_rows cs2) ->
  append_chunks cs1 = append_chunks cs2.
Proof. intros H; rewrite !append_chunks_concat, H; reflexivity. Qed.

Lemma append_chunks_split_invariant_witness :
  concat (map chunk_rows [ {| chunk_rows := [[Some 1%Z; None]; [Some 2%Z; Some 5%Z]] |} ]) =
  concat (map chunk_rows [ {| chunk_rows := [[Some 1%Z; None]] |};
                           {| chunk_rows := [[Some 2%Z; Some 5%Z]] |} ]) /\
  append_chunks [ {| chunk_rows := [[Some 1%Z; None]; [Some 2%Z; Some 5%Z]] |} ] =
  append_chunks [ {| chunk_rows := [[Some 1%Z; None]] |};
                  {| chunk_rows := [[Some 2%Z; Some 5%Z]] |} ].
Proof.
  split; [reflexivity|].
  apply append_chunks_split_invariant; reflexivity.
Defined.

End ReadWriteExtras.
